(** * Demand Overlap Coefficient: a shallow embedding of [run_DOC_calculation.py]

    The three DOC functions [calc_DOC], [calc_mean_BES_DOC] and
    [calc_Network_DOC] and the net-demand computation of the [__main__]
    block are embedded as Rocq functions and their documented properties
    are proved.

    Numbers.  Demand values are exact rationals ([Q]); rounding of binary
    floating point and the sign of zero are not modelled.  What is modelled
    of the number representation is what decides the outcome of a division
    by zero: whether an operand is a plain Python number or a NumPy scalar.
    [np.min] always returns a NumPy scalar, Python's [sum] starts from the
    Python integer [0], and [/] raises [ZeroDivisionError] only when both
    operands are plain Python numbers; with a NumPy operand it returns
    [nan] or [inf].

    Errors.  Indexing out of range raises [IndexError]; exceptions are
    carried by an error monad and propagate in evaluation order. *)

From Stdlib Require Import List Arith Bool Lia ZArith QArith Qminmax Lqa Permutation.
Import ListNotations.

Open Scope Q_scope.

(** ** Python values and exceptions *)

Inductive exn : Set :=
| IndexError
| ZeroDivisionError
| ValueError.

Inductive result (A : Type) : Type :=
| Ok (a : A)
| Raise (e : exn).

Arguments Ok {A} a.
Arguments Raise {A} e.

Definition bind {A B : Type} (r : result A) (k : A -> result B) : result B :=
  match r with
  | Ok a => k a
  | Raise e => Raise e
  end.

Declare Scope py_scope.
Delimit Scope py_scope with py.
Notation "x <- r ;; k" := (bind r (fun x => k))
  (at level 61, r at next level, right associativity) : py_scope.
Open Scope py_scope.

(** A number is either a plain Python number or a NumPy scalar. *)
Inductive scalar : Set :=
| PyNum (q : Q)
| NpNum (q : Q).

Definition val (s : scalar) : Q :=
  match s with
  | PyNum q => q
  | NpNum q => q
  end.

Definition is_np (s : scalar) : bool :=
  match s with
  | PyNum _ => false
  | NpNum _ => true
  end.

(** The result of a true division: a finite number or an IEEE special. *)
Inductive float : Set :=
| Fin (q : Q)
| NaN
| PosInf
| NegInf.

(** [a + b] and [a * b]: the result is a NumPy scalar as soon as one of the
    operands is. *)
Definition add (a b : scalar) : scalar :=
  match a, b with
  | PyNum x, PyNum y => PyNum (x + y)
  | _, _ => NpNum (val a + val b)
  end.

Definition mul (a b : scalar) : scalar :=
  match a, b with
  | PyNum x, PyNum y => PyNum (x * y)
  | _, _ => NpNum (val a * val b)
  end.

(** NumPy's scalar division: a zero divisor gives [nan] or an infinity (and
    a warning), never an exception. *)
Definition np_true_divide (x y : Q) : float :=
  if Qeq_bool y 0 then
    match x ?= 0 with
    | Eq => NaN
    | Gt => PosInf
    | Lt => NegInf
    end
  else Fin (x / y).

(** [a / b]. *)
Definition truediv (a b : scalar) : result float :=
  match a, b with
  | PyNum x, PyNum y =>
      if Qeq_bool y 0 then Raise ZeroDivisionError else Ok (Fin (x / y))
  | _, _ => Ok (np_true_divide (val a) (val b))
  end.

(** [np.min([a, b])] and [np.min([a, b], 0)] on two numbers. *)
Definition np_min (a b : scalar) : scalar := NpNum (Qmin (val a) (val b)).

(** An [array_like] time series: a Python list of numbers or a
    one-dimensional NumPy array. *)
Inductive array_like : Set :=
| PyList (xs : list Q)
| NdArray (xs : list Q).

Definition items (a : array_like) : list Q :=
  match a with
  | PyList xs => xs
  | NdArray xs => xs
  end.

Definition len (a : array_like) : nat := length (items a).

(** [a[k]] for [k >= 0]. *)
Definition getitem (a : array_like) (k : nat) : result scalar :=
  match nth_error (items a) k with
  | Some q => Ok match a with PyList _ => PyNum q | NdArray _ => NpNum q end
  | None => Raise IndexError
  end.

(** [l[b]] on a Python list of series. *)
Definition list_getitem (l : list array_like) (b : nat) : result array_like :=
  match nth_error l b with
  | Some a => Ok a
  | None => Raise IndexError
  end.

Definition range (n : nat) : list nat := seq 0 n.

(** [sum(gen(x) for x in xs)]: the accumulator starts at the Python integer
    [0]; an exception raised while producing an item ends the sum. *)
Fixpoint sum_from {A : Type} (gen : A -> result scalar) (xs : list A)
    (acc : scalar) : result scalar :=
  match xs with
  | [] => Ok acc
  | x :: xs' => v <- gen x ;; sum_from gen xs' (add acc v)
  end.

Definition py_sum {A : Type} (gen : A -> result scalar) (xs : list A)
    : result scalar :=
  sum_from gen xs (PyNum 0).

(** ** The three DOC functions *)

Definition calc_DOC (heat_dem cool_dem : array_like) : result float :=
  let t_steps := range (len heat_dem) in
  counter <-
    py_sum (fun k =>
              h <- getitem heat_dem k ;;
              c <- getitem cool_dem k ;;
              Ok (mul (PyNum 2) (np_min h c))) t_steps ;;
  denominator <-
    py_sum (fun k =>
              h <- getitem heat_dem k ;;
              c <- getitem cool_dem k ;;
              Ok (add h c)) t_steps ;;
  truediv counter denominator.

(** [dem_list[b][t]]. *)
Definition getitem2 (dem_list : list array_like) (b t : nat) : result scalar :=
  a <- list_getitem dem_list b ;; getitem a t.

Definition calc_mean_BES_DOC (heat_dem_list cool_dem_list : list array_like)
    : result float :=
  first <- list_getitem heat_dem_list 0 ;;
  let t_steps := range (len first) in
  let bldgs := range (length heat_dem_list) in
  s <-
    py_sum (fun t =>
              py_sum (fun b =>
                        h <- getitem2 heat_dem_list b t ;;
                        c <- getitem2 cool_dem_list b t ;;
                        Ok (np_min h c)) bldgs) t_steps ;;
  let counter := mul (PyNum 2) s in
  denominator <-
    py_sum (fun t =>
              sh <- py_sum (fun b => getitem2 heat_dem_list b t) bldgs ;;
              sc <- py_sum (fun b => getitem2 cool_dem_list b t) bldgs ;;
              Ok (add sh sc)) t_steps ;;
  truediv counter denominator.

Definition calc_Network_DOC (heat_dem_list cool_dem_list : list array_like)
    : result float :=
  first <- list_getitem heat_dem_list 0 ;;
  let t_steps := range (len first) in
  let bldgs := range (length heat_dem_list) in
  s <-
    py_sum (fun t =>
              sh <- py_sum (fun b => getitem2 heat_dem_list b t) bldgs ;;
              sc <- py_sum (fun b => getitem2 cool_dem_list b t) bldgs ;;
              Ok (np_min sh sc)) t_steps ;;
  let counter := mul (PyNum 2) s in
  denominator <-
    py_sum (fun t =>
              sh <- py_sum (fun b => getitem2 heat_dem_list b t) bldgs ;;
              sc <- py_sum (fun b => getitem2 cool_dem_list b t) bldgs ;;
              Ok (add sh sc)) t_steps ;;
  truediv counter denominator.

(** ** Net demand (Eq. 9, 13, 14 of the [__main__] block)

    [bal = np.min([heat, cold], 0)], [heat - bal], [cold - bal] on two
    one-dimensional arrays.  Stacking two arrays of different lengths is
    refused by NumPy with a [ValueError]. *)

Definition np_min_axis0 (heat cold : list Q) : result (list Q) :=
  if Nat.eqb (length heat) (length cold)
  then Ok (map (fun p => Qmin (fst p) (snd p)) (combine heat cold))
  else Raise ValueError.

Definition np_sub (a b : list Q) : list Q :=
  map (fun p => fst p - snd p) (combine a b).

Definition net_demand (heat cold : list Q) : result (list Q * list Q) :=
  bal <- np_min_axis0 heat cold ;;
  Ok (np_sub heat bal, np_sub cold bal).


(** ** Vocabulary of the statements *)

(** The finite number a call returned, if it returned one. *)
Definition number_of (r : result float) : option Q :=
  match r with
  | Ok (Fin q) => Some q
  | _ => None
  end.

(** Equality of possibly undefined rationals: both undefined, or both
    defined and equal as rationals. *)
Definition same_number (a b : option Q) : Prop :=
  match a, b with
  | Some x, Some y => x == y
  | None, None => True
  | _, _ => False
  end.

Definition returns (r : result float) (q : Q) : Prop :=
  same_number (number_of r) (Some q).


Definition Qsum (xs : list Q) : Q := fold_right Qplus 0 xs.

(** [Sigma n f] is the sum of [f t] over the time steps (or entities)
    [0 <= t < n]. *)
Definition Sigma (n : nat) (f : nat -> Q) : Q := Qsum (map f (range n)).

(** [at_ xs t] is [xs[t]]. *)
Definition at_ (xs : list Q) (t : nat) : Q := nth t xs 0.

(** [cell l e t] is [l[e][t]]. *)
Definition cell (l : list array_like) (e t : nat) : Q :=
  at_ (items (nth e l (PyList []))) t.

Definition nonneg (xs : list Q) : Prop := Forall (fun x => 0 <= x) xs.


(** Total demand of a collection over [T] time steps. *)
Definition total_demand (heat cool : list array_like) (T : nat) : Q :=
  Sigma T (fun t =>
    Sigma (length heat) (fun e => cell heat e t + cell cool e t)).



(** A collection of entity demand pairs: as many cold series as heat series,
    every series of length [T]. *)
Definition collection (heat cool : list array_like) (T : nat) : Prop :=
  length heat = length cool /\
  Forall (fun a => len a = T) heat /\
  Forall (fun a => len a = T) cool.

Definition nonneg_all (l : list array_like) : Prop :=
  Forall (fun a => nonneg (items a)) l.

(** The left-to-right sum that [sum] computes, on the values. *)
Definition Qfold (xs : list Q) : Q := fold_left Qplus xs 0.

(** The number a successful [a[k]] yields. *)
Definition elem (a : array_like) (k : nat) : scalar :=
  match a with
  | PyList xs => PyNum (at_ xs k)
  | NdArray xs => NpNum (at_ xs k)
  end.

(** Numerator and denominator of [calc_DOC], as the rationals its two sums
    accumulate. *)
Definition DOC_counter (heat cool : list Q) : Q :=
  Qfold (map (fun k => 2 * Qmin (at_ heat k) (at_ cool k))
             (range (length heat))).

Definition DOC_denominator (heat cool : list Q) : Q :=
  Qfold (map (fun k => at_ heat k + at_ cool k) (range (length heat))).

(** The number a successful [l[b][t]] yields. *)
Definition elem2 (l : list array_like) (b t : nat) : scalar :=
  elem (nth b l (PyList [])) t.

(** The value of [sum(f(x) for x in xs)] when no item raises. *)
Definition total {A : Type} (f : A -> scalar) (xs : list A) : scalar :=
  fold_left add (map f xs) (PyNum 0).

(** Two series with the same values, step by step. *)
Definition same_series (xs ys : list Q) : Prop :=
  length xs = length ys /\
  forall t, (t < length xs)%nat -> at_ xs t == at_ ys t.

(** ** District demand (the sums of the [__main__] block)

    [a + b] on two one-dimensional arrays: element by element when the
    lengths agree, an array of length one is broadcast, any other pair of
    lengths is refused with a [ValueError]. *)



(** ** Outcomes up to the value of the returned number *)

Definition float_eq (a b : float) : Prop :=
  match a, b with
  | Fin x, Fin y => x == y
  | NaN, NaN => True
  | PosInf, PosInf => True
  | NegInf, NegInf => True
  | _, _ => False
  end.

(** Two calls end alike: with the same exception, the same special value or
    equal numbers. *)
Definition outcome_eq (r1 r2 : result float) : Prop :=
  match r1, r2 with
  | Ok a, Ok b => float_eq a b
  | Raise e1, Raise e2 => e1 = e2
  | _, _ => False
  end.


(** ** Evaluation of the embedding on concrete inputs *)

Example calc_DOC_unfolds :
  calc_DOC (PyList [2; 2]) (PyList [2; 0])
  = Ok (Fin ((0 + 2 * 2 + 2 * 0) / (0 + (2 + 2) + (2 + 0)))).
Proof. reflexivity. Qed.

Example calc_DOC_empty :
  calc_DOC (NdArray []) (NdArray []) = Raise ZeroDivisionError.
Proof. reflexivity. Qed.

Example calc_DOC_negative_total :
  calc_DOC (PyList [1]) (PyList [-1]) = Ok NegInf.
Proof. reflexivity. Qed.

Example calc_mean_BES_DOC_no_entity :
  calc_mean_BES_DOC [] [] = Raise IndexError.
Proof. reflexivity. Qed.

Example calc_Network_DOC_ragged :
  calc_Network_DOC [PyList [1; 2]; PyList [1]] [PyList [1; 2]; PyList [1; 2]]
  = Raise IndexError.
Proof. reflexivity. Qed.

Example calc_Network_DOC_missing_cold_series :
  calc_Network_DOC [PyList [1]; PyList [1]] [PyList [1]] = Raise IndexError.
Proof. reflexivity. Qed.

Example net_demand_unequal_lengths :
  net_demand [1; 2] [1] = Raise ValueError.
Proof. reflexivity. Qed.

(** ** Arithmetic of the number representations *)

Lemma val_add (a b : scalar) : val (add a b) = val a + val b.
Proof. destruct a, b; reflexivity. Qed.

Lemma val_mul (a b : scalar) : val (mul a b) = val a * val b.
Proof. destruct a, b; reflexivity. Qed.

Lemma is_np_add (a b : scalar) : is_np (add a b) = is_np a || is_np b.
Proof. destruct a, b; reflexivity. Qed.

Lemma is_np_mul (a b : scalar) : is_np (mul a b) = is_np a || is_np b.
Proof. destruct a, b; reflexivity. Qed.

Lemma truediv_np (a b : scalar) :
  is_np a = true -> truediv a b = Ok (np_true_divide (val a) (val b)).
Proof. destruct a, b; simpl; intros H; try discriminate; reflexivity. Qed.

Lemma truediv_py_zero (x : Q) : truediv (PyNum x) (PyNum 0) = Raise ZeroDivisionError.
Proof. reflexivity. Qed.


Lemma np_true_divide_nan (x y : Q) :
  x == 0 -> y == 0 -> np_true_divide x y = NaN.
Proof.
  intros Hx Hy. unfold np_true_divide.
  apply Qeq_bool_iff in Hy. rewrite Hy.
  apply Qeq_alt in Hx. rewrite Hx. reflexivity.
Qed.

(** ** Sums *)

Lemma Qfold_from (xs : list Q) (a : Q) :
  fold_left Qplus xs a == a + Qsum xs.
Proof.
  revert a. induction xs as [|x xs IH]; intros a; unfold Qsum; simpl.
  - lra.
  - fold (Qsum xs). rewrite IH. lra.
Qed.

Lemma Qfold_Qsum (xs : list Q) : Qfold xs == Qsum xs.
Proof. unfold Qfold. rewrite Qfold_from. lra. Qed.

Lemma val_fold_add (xs : list scalar) (acc : scalar) :
  val (fold_left add xs acc) = fold_left Qplus (map val xs) (val acc).
Proof.
  revert acc. induction xs as [|x xs IH]; intros acc; simpl.
  - reflexivity.
  - rewrite IH, val_add. reflexivity.
Qed.

Lemma is_np_fold_add (xs : list scalar) (acc : scalar) :
  is_np (fold_left add xs acc) = is_np acc || existsb is_np xs.
Proof.
  revert acc. induction xs as [|x xs IH]; intros acc; simpl.
  - now rewrite orb_false_r.
  - rewrite IH, is_np_add. now rewrite orb_assoc.
Qed.

Section PySum.
Context {A : Type}.
Variable gen : A -> result scalar.

(** When every item is produced, the sum is the fold of [add]. *)
Lemma sum_from_ok (f : A -> scalar) (xs : list A) (acc : scalar) :
  (forall x, In x xs -> gen x = Ok (f x)) ->
  sum_from gen xs acc = Ok (fold_left add (map f xs) acc).
Proof.
  revert acc. induction xs as [|x xs IH]; intros acc H; simpl.
  - reflexivity.
  - rewrite (H x (or_introl eq_refl)). simpl.
    apply IH. intros y Hy. apply H. now right.
Qed.

(** The first item that raises ends the sum with its exception. *)
Lemma sum_from_raise (f : A -> scalar) (pre post : list A) (x : A)
    (e : exn) (acc : scalar) :
  (forall y, In y pre -> gen y = Ok (f y)) ->
  gen x = Raise e ->
  sum_from gen (pre ++ x :: post) acc = Raise e.
Proof.
  revert acc. induction pre as [|p pre IH]; intros acc H Hx; simpl.
  - now rewrite Hx.
  - rewrite (H p (or_introl eq_refl)). simpl.
    apply IH; [|exact Hx]. intros y Hy. apply H. now right.
Qed.
End PySum.

(** ** Indexing *)

Lemma in_range (k n : nat) : In k (range n) <-> (k < n)%nat.
Proof. unfold range. rewrite in_seq. lia. Qed.

Lemma range_split (k n : nat) :
  (k < n)%nat -> range n = range k ++ k :: seq (S k) (n - S k).
Proof.
  intros H. unfold range.
  replace n with (k + S (n - S k))%nat at 1 by lia.
  rewrite seq_app. reflexivity.
Qed.

Lemma getitem_ok (a : array_like) (k : nat) :
  (k < len a)%nat -> getitem a k = Ok (elem a k).
Proof.
  intros H. unfold getitem, elem, at_, len in *.
  destruct (nth_error (items a) k) as [q|] eqn:E.
  - apply (nth_error_nth _ _ 0) in E. destruct a; simpl in *; now rewrite E.
  - apply nth_error_None in E. lia.
Qed.

Lemma getitem_raise (a : array_like) (k : nat) :
  (len a <= k)%nat -> getitem a k = Raise IndexError.
Proof.
  intros H. unfold getitem, len in *.
  apply nth_error_None in H. now rewrite H.
Qed.

Lemma val_elem (a : array_like) (k : nat) : val (elem a k) = at_ (items a) k.
Proof. destruct a; reflexivity. Qed.

(** ** [calc_DOC] in closed form *)

Lemma calc_DOC_closed (heat cool : array_like) :
  (len heat <= len cool)%nat ->
  calc_DOC heat cool =
    match len heat with
    | O => Raise ZeroDivisionError
    | S _ => Ok (np_true_divide (DOC_counter (items heat) (items cool))
                                (DOC_denominator (items heat) (items cool)))
    end.
Proof.
  intros Hlen. unfold calc_DOC, py_sum.
  rewrite (sum_from_ok _
             (fun k => mul (PyNum 2) (np_min (elem heat k) (elem cool k)))).
  2:{ intros k Hk. apply in_range in Hk.
      rewrite !getitem_ok by lia. reflexivity. }
  rewrite (sum_from_ok _ (fun k => add (elem heat k) (elem cool k))).
  2:{ intros k Hk. apply in_range in Hk.
      rewrite !getitem_ok by lia. reflexivity. }
  cbn [bind].
  unfold DOC_counter, DOC_denominator, Qfold.
  fold (len heat). destruct (len heat) as [|n] eqn:En.
  - reflexivity.
  - rewrite truediv_np.
    2:{ rewrite is_np_fold_add. reflexivity. }
    rewrite !val_fold_add, !map_map. cbn [val].
    f_equal. f_equal.
    + f_equal. apply map_ext. intros k.
      rewrite val_mul. cbn [val np_min]. now rewrite !val_elem.
    + f_equal. apply map_ext. intros k.
      rewrite val_add. now rewrite !val_elem.
Qed.

(** A cold series shorter than the heat series: [cool_dem[k]] raises at
    [k = len(cool_dem)], inside the first sum. *)
Lemma calc_DOC_short (heat cool : array_like) :
  (len cool < len heat)%nat -> calc_DOC heat cool = Raise IndexError.
Proof.
  intros Hlen. unfold calc_DOC, py_sum.
  rewrite (range_split _ _ Hlen).
  rewrite (sum_from_raise _
             (fun k => mul (PyNum 2) (np_min (elem heat k) (elem cool k)))
             _ _ _ IndexError).
  - reflexivity.
  - intros k Hk. apply in_range in Hk.
    rewrite !getitem_ok by lia. reflexivity.
  - rewrite getitem_ok by lia. rewrite getitem_raise by lia. reflexivity.
Qed.

(** ** Finite sums of rationals *)

Section SigmaLemmas.
Variables f g : nat -> Q.

Lemma Qsum_map_ext (ks : list nat) :
  (forall k, In k ks -> f k == g k) ->
  Qsum (map f ks) == Qsum (map g ks).
Proof.
  induction ks as [|k ks IH]; intros H; unfold Qsum; simpl.
  - reflexivity.
  - fold (Qsum (map f ks)) (Qsum (map g ks)).
    rewrite IH by (intros; apply H; now right).
    rewrite (H k) by now left. reflexivity.
Qed.

Lemma Qsum_map_le (ks : list nat) :
  (forall k, In k ks -> f k <= g k) ->
  Qsum (map f ks) <= Qsum (map g ks).
Proof.
  induction ks as [|k ks IH]; intros H; unfold Qsum; simpl.
  - lra.
  - fold (Qsum (map f ks)) (Qsum (map g ks)).
    assert (f k <= g k) by (apply H; now left).
    assert (Qsum (map f ks) <= Qsum (map g ks))
      by (apply IH; intros; apply H; now right).
    lra.
Qed.

Lemma Qsum_map_plus (ks : list nat) :
  Qsum (map (fun k => f k + g k) ks) == Qsum (map f ks) + Qsum (map g ks).
Proof.
  induction ks as [|k ks IH]; unfold Qsum; simpl.
  - lra.
  - fold (Qsum (map (fun k => f k + g k) ks))
         (Qsum (map f ks)) (Qsum (map g ks)).
    rewrite IH. lra.
Qed.

Lemma Qsum_map_scal (c : Q) (ks : list nat) :
  Qsum (map (fun k => c * f k) ks) == c * Qsum (map f ks).
Proof.
  induction ks as [|k ks IH]; unfold Qsum; simpl.
  - lra.
  - fold (Qsum (map (fun k => c * f k) ks)) (Qsum (map f ks)).
    rewrite IH. lra.
Qed.

Lemma Qsum_map_nonneg (ks : list nat) :
  (forall k, In k ks -> 0 <= f k) -> 0 <= Qsum (map f ks).
Proof.
  induction ks as [|k ks IH]; intros H; unfold Qsum; simpl.
  - lra.
  - fold (Qsum (map f ks)).
    assert (0 <= f k) by (apply H; now left).
    assert (0 <= Qsum (map f ks)) by (apply IH; intros; apply H; now right).
    lra.
Qed.

End SigmaLemmas.

Lemma Sigma_ext (n : nat) (f g : nat -> Q) :
  (forall k, (k < n)%nat -> f k == g k) -> Sigma n f == Sigma n g.
Proof. intros H. apply Qsum_map_ext. intros k Hk. apply H, in_range, Hk. Qed.

Lemma Sigma_le (n : nat) (f g : nat -> Q) :
  (forall k, (k < n)%nat -> f k <= g k) -> Sigma n f <= Sigma n g.
Proof. intros H. apply Qsum_map_le. intros k Hk. apply H, in_range, Hk. Qed.

Lemma Sigma_plus (n : nat) (f g : nat -> Q) :
  Sigma n (fun k => f k + g k) == Sigma n f + Sigma n g.
Proof. apply Qsum_map_plus. Qed.

Lemma Sigma_scal (n : nat) (c : Q) (f : nat -> Q) :
  Sigma n (fun k => c * f k) == c * Sigma n f.
Proof. apply Qsum_map_scal. Qed.

Lemma Sigma_nonneg (n : nat) (f : nat -> Q) :
  (forall k, (k < n)%nat -> 0 <= f k) -> 0 <= Sigma n f.
Proof. intros H. apply Qsum_map_nonneg. intros k Hk. apply H, in_range, Hk. Qed.


Lemma Qfold_Sigma (n : nat) (f : nat -> Q) :
  Qfold (map f (range n)) == Sigma n f.
Proof. apply Qfold_Qsum. Qed.

(** ** Quotients *)





Lemma Qmin_nonneg (a b : Q) : 0 <= a -> 0 <= b -> 0 <= Qmin a b.
Proof. intros; destruct (Q.min_spec a b) as [[? E]|[? E]]; rewrite E; lra. Qed.

Lemma Qmin_half (a b : Q) : 2 * Qmin a b <= a + b.
Proof. destruct (Q.min_spec a b) as [[? E]|[? E]]; rewrite E; lra. Qed.


Lemma nonneg_at (xs : list Q) (t : nat) : nonneg xs -> 0 <= at_ xs t.
Proof.
  intros H. unfold at_. destruct (Nat.lt_ge_cases t (length xs)) as [L|L].
  - unfold nonneg in H. rewrite Forall_forall in H. apply H, nth_In, L.
  - rewrite nth_overflow by exact L. lra.
Qed.

(** ** [calc_DOC]: value, range and invariances *)

Lemma DOC_counter_Sigma (heat cool : list Q) :
  DOC_counter heat cool ==
  2 * Sigma (length heat) (fun t => Qmin (at_ heat t) (at_ cool t)).
Proof. unfold DOC_counter. now rewrite Qfold_Sigma, Sigma_scal. Qed.

Lemma DOC_denominator_Sigma (heat cool : list Q) :
  DOC_denominator heat cool ==
  Sigma (length heat) (fun t => at_ heat t + at_ cool t).
Proof. unfold DOC_denominator. now rewrite Qfold_Sigma. Qed.




















(** ** Collections of entity demand pairs *)

Lemma py_sum_ok {A : Type} (gen : A -> result scalar) (f : A -> scalar)
    (xs : list A) :
  (forall x, In x xs -> gen x = Ok (f x)) -> py_sum gen xs = Ok (total f xs).
Proof. apply sum_from_ok. Qed.

Lemma val_total (f : nat -> scalar) (ks : list nat) :
  val (total f ks) == Qsum (map (fun k => val (f k)) ks).
Proof.
  unfold total. rewrite val_fold_add, Qfold_from, map_map. cbn [val]. lra.
Qed.

Lemma is_np_total {A : Type} (f : A -> scalar) (xs : list A) :
  is_np (total f xs) = existsb (fun x => is_np (f x)) xs.
Proof.
  unfold total. rewrite is_np_fold_add. cbn [is_np orb].
  induction xs as [|x xs IH]; simpl; [reflexivity|now rewrite IH].
Qed.

Lemma val_elem2 (l : list array_like) (b t : nat) :
  val (elem2 l b t) = cell l b t.
Proof. unfold elem2, cell. apply val_elem. Qed.

Lemma nonneg_cell (l : list array_like) (e t : nat) :
  nonneg_all l -> 0 <= cell l e t.
Proof.
  intros H. unfold cell. apply nonneg_at.
  destruct (Nat.lt_ge_cases e (length l)) as [L|L].
  - unfold nonneg_all in H. rewrite Forall_forall in H.
    apply (H (nth e l (PyList []))), nth_In, L.
  - rewrite nth_overflow by exact L. constructor.
Qed.

Section Collection.
Variables (l : list array_like) (T : nat).
Hypothesis Hlen : Forall (fun a => len a = T) l.

Lemma getitem2_ok (b t : nat) :
  (b < length l)%nat -> (t < T)%nat -> getitem2 l b t = Ok (elem2 l b t).
Proof.
  intros Hb Ht. unfold getitem2, list_getitem, elem2.
  destruct (nth_error l b) as [a|] eqn:E.
  - rewrite (nth_error_nth _ _ (PyList []) E). cbn [bind].
    apply getitem_ok. rewrite Forall_forall in Hlen.
    rewrite (Hlen a) by (eapply nth_error_In; exact E). exact Ht.
  - apply nth_error_None in E. lia.
Qed.

(** [sum(l[b][t] for b in bldgs)] at a time step in range. *)
Lemma column_sum_ok (E t : nat) :
  (E <= length l)%nat -> (t < T)%nat ->
  py_sum (fun b => getitem2 l b t) (range E)
  = Ok (total (fun b => elem2 l b t) (range E)).
Proof.
  intros HE Ht. apply py_sum_ok. intros b Hb. apply in_range in Hb.
  apply getitem2_ok; [lia|exact Ht].
Qed.

Lemma val_column (E t : nat) :
  val (total (fun b => elem2 l b t) (range E))
  == Sigma E (fun e => cell l e t).
Proof.
  rewrite val_total. apply Qsum_map_ext. intros b _.
  now rewrite val_elem2.
Qed.
End Collection.

(** Total demand, as the denominators of the two collection functions
    accumulate it. *)
Lemma val_denominator (hl cl : list array_like) (T : nat) :
  val (total (fun t =>
               add (total (fun b => elem2 hl b t) (range (length hl)))
                   (total (fun b => elem2 cl b t) (range (length hl))))
             (range T))
  == total_demand hl cl T.
Proof.
  rewrite val_total. unfold total_demand. apply Qsum_map_ext. intros t _.
  rewrite val_add, !val_column. now rewrite Sigma_plus.
Qed.

Lemma calc_Network_DOC_closed (hl cl : list array_like) (T : nat) :
  hl <> [] -> collection hl cl T ->
  exists n d,
    calc_Network_DOC hl cl =
      match T with
      | O => Raise ZeroDivisionError
      | S _ => Ok (np_true_divide n d)
      end /\
    n == 2 * Sigma T (fun t =>
               Qmin (Sigma (length hl) (fun e => cell hl e t))
                    (Sigma (length hl) (fun e => cell cl e t))) /\
    d == total_demand hl cl T.
Proof.
  intros Hne [HE [Hh Hc]].
  destruct hl as [|first rest]; [congruence|].
  assert (HT : len first = T) by (inversion Hh; assumption).
  set (hl := first :: rest) in *.
  unfold calc_Network_DOC.
  change (list_getitem hl 0) with (Ok first). cbn [bind]. rewrite HT.
  set (F := fun t => np_min (total (fun b => elem2 hl b t) (range (length hl)))
                            (total (fun b => elem2 cl b t) (range (length hl)))).
  set (G := fun t => add (total (fun b => elem2 hl b t) (range (length hl)))
                         (total (fun b => elem2 cl b t) (range (length hl)))).
  rewrite (py_sum_ok _ F).
  2:{ intros t Ht. apply in_range in Ht.
      rewrite (column_sum_ok hl T Hh), (column_sum_ok cl T Hc) by lia.
      reflexivity. }
  rewrite (py_sum_ok _ G).
  2:{ intros t Ht. apply in_range in Ht.
      rewrite (column_sum_ok hl T Hh), (column_sum_ok cl T Hc) by lia.
      reflexivity. }
  cbn [bind].
  exists (val (mul (PyNum 2) (total F (range T)))), (val (total G (range T))).
  split; [|split].
  - destruct T as [|T']; [reflexivity|].
    apply truediv_np. rewrite is_np_mul, is_np_total. reflexivity.
  - rewrite val_mul, val_total. cbn [val]. apply Qmult_comp; [reflexivity|].
    apply Qsum_map_ext. intros t _. unfold F, np_min. cbn [val].
    now rewrite !val_column.
  - apply val_denominator.
Qed.

Lemma calc_mean_BES_DOC_closed (hl cl : list array_like) (T : nat) :
  hl <> [] -> collection hl cl T ->
  exists n d,
    calc_mean_BES_DOC hl cl =
      match T with
      | O => Raise ZeroDivisionError
      | S _ => Ok (np_true_divide n d)
      end /\
    n == 2 * Sigma T (fun t =>
               Sigma (length hl) (fun e => Qmin (cell hl e t) (cell cl e t))) /\
    d == total_demand hl cl T.
Proof.
  intros Hne [HE [Hh Hc]].
  destruct hl as [|first rest]; [congruence|].
  assert (HT : len first = T) by (inversion Hh; assumption).
  set (hl := first :: rest) in *.
  unfold calc_mean_BES_DOC.
  change (list_getitem hl 0) with (Ok first). cbn [bind]. rewrite HT.
  set (F := fun t => total (fun b => np_min (elem2 hl b t) (elem2 cl b t))
                           (range (length hl))).
  set (G := fun t => add (total (fun b => elem2 hl b t) (range (length hl)))
                         (total (fun b => elem2 cl b t) (range (length hl)))).
  rewrite (py_sum_ok _ F).
  2:{ intros t Ht. apply in_range in Ht. apply py_sum_ok.
      intros b Hb. apply in_range in Hb.
      rewrite (getitem2_ok hl T Hh), (getitem2_ok cl T Hc) by lia.
      reflexivity. }
  rewrite (py_sum_ok _ G).
  2:{ intros t Ht. apply in_range in Ht.
      rewrite (column_sum_ok hl T Hh), (column_sum_ok cl T Hc) by lia.
      reflexivity. }
  cbn [bind].
  exists (val (mul (PyNum 2) (total F (range T)))), (val (total G (range T))).
  split; [|split].
  - destruct T as [|T']; [reflexivity|].
    apply truediv_np. rewrite is_np_mul, is_np_total. cbn [is_np orb].
    unfold range at 1. cbn [seq existsb]. unfold F at 1.
    rewrite is_np_total. reflexivity.
  - rewrite val_mul, val_total. cbn [val]. apply Qmult_comp; [reflexivity|].
    apply Qsum_map_ext. intros t _. unfold F. rewrite val_total.
    apply Qsum_map_ext. intros b _. unfold np_min. cbn [val].
    now rewrite !val_elem2.
  - apply val_denominator.
Qed.







(** ** Pooling: the network DOC against the mean DOC *)

(** A sum of minima is at most the minimum of the sums. *)
Lemma Sigma_min_le (E : nat) (f g : nat -> Q) :
  Sigma E (fun e => Qmin (f e) (g e)) <= Qmin (Sigma E f) (Sigma E g).
Proof.
  apply Q.min_glb; apply Sigma_le; intros e _.
  - apply Q.le_min_l.
  - apply Q.le_min_r.
Qed.






(** ** Zero total demand *)

Lemma Network_counter_bounds (hl cl : list array_like) (T : nat) :
  nonneg_all hl -> nonneg_all cl ->
  0 <= Sigma T (fun t =>
         Sigma (length hl) (fun e => Qmin (cell hl e t) (cell cl e t))) /\
  Sigma T (fun t =>
    Sigma (length hl) (fun e => Qmin (cell hl e t) (cell cl e t)))
  <= Sigma T (fun t =>
       Qmin (Sigma (length hl) (fun e => cell hl e t))
            (Sigma (length hl) (fun e => cell cl e t))) /\
  2 * Sigma T (fun t =>
        Qmin (Sigma (length hl) (fun e => cell hl e t))
             (Sigma (length hl) (fun e => cell cl e t)))
  <= total_demand hl cl T.
Proof.
  intros Nh Nc. split; [|split].
  - apply Sigma_nonneg. intros t _. apply Sigma_nonneg. intros e _.
    apply Qmin_nonneg; now apply nonneg_cell.
  - apply Sigma_le. intros t _. apply Sigma_min_le.
  - unfold total_demand. rewrite <- Sigma_scal. apply Sigma_le. intros t _.
    rewrite Sigma_plus. apply Qmin_half.
Qed.

(** C7, as the code behaves.  When the total demand is zero the three DOC
    functions behave alike, but neither raise [DegenerateInput] nor return
    [0]: on series with at least one time step each returns [nan], and on
    series of length zero each raises [ZeroDivisionError]. *)
Theorem zero_demand_outcome :
  (forall heat cool : array_like,
      len heat = len cool ->
      nonneg (items heat) -> nonneg (items cool) ->
      Sigma (len heat) (fun t => at_ (items heat) t + at_ (items cool) t)
      == 0 ->
      calc_DOC heat cool =
        match len heat with
        | O => Raise ZeroDivisionError
        | S _ => Ok NaN
        end) /\
  (forall (heat_list cool_list : list array_like) (T : nat),
      heat_list <> [] ->
      collection heat_list cool_list T ->
      nonneg_all heat_list -> nonneg_all cool_list ->
      total_demand heat_list cool_list T == 0 ->
      calc_mean_BES_DOC heat_list cool_list =
        match T with
        | O => Raise ZeroDivisionError
        | S _ => Ok NaN
        end /\
      calc_Network_DOC heat_list cool_list =
        match T with
        | O => Raise ZeroDivisionError
        | S _ => Ok NaN
        end).
Proof.
  split.
  - intros heat cool Hlen Nh Nc Hz.
    rewrite calc_DOC_closed by lia.
    destruct (len heat) as [|n] eqn:En; [reflexivity|].
    f_equal. apply np_true_divide_nan.
    + rewrite DOC_counter_Sigma. fold (len heat). rewrite En.
      assert (0 <= Sigma (S n)
                     (fun t => Qmin (at_ (items heat) t) (at_ (items cool) t)))
        by (apply Sigma_nonneg; intros; apply Qmin_nonneg; now apply nonneg_at).
      assert (2 * Sigma (S n)
                    (fun t => Qmin (at_ (items heat) t) (at_ (items cool) t))
              <= Sigma (S n)
                   (fun t => at_ (items heat) t + at_ (items cool) t))
        by (rewrite <- Sigma_scal; apply Sigma_le; intros; apply Qmin_half).
      lra.
    + rewrite DOC_denominator_Sigma. fold (len heat). now rewrite En.
  - intros hl cl T Hne Hcol Nh Nc Hz.
    destruct (Network_counter_bounds hl cl T Nh Nc) as (B1 & B2 & B3).
    destruct (calc_Network_DOC_closed _ _ T Hne Hcol) as (n & d & E & En & Ed).
    destruct (calc_mean_BES_DOC_closed _ _ T Hne Hcol)
      as (n' & d' & E' & En' & Ed').
    rewrite E, E'. destruct T as [|T']; [split; reflexivity|].
    split; f_equal; apply np_true_divide_nan; lra.
Qed.

Lemma zero_demand_outcome_witness :
  calc_DOC (NdArray [0; 0]) (NdArray [0; 0]) = Ok NaN /\
  calc_mean_BES_DOC [PyList [0; 0]; NdArray [0; 0]]
                    [PyList [0; 0]; NdArray [0; 0]] = Ok NaN /\
  calc_Network_DOC [PyList [0; 0]; NdArray [0; 0]]
                   [PyList [0; 0]; NdArray [0; 0]] = Ok NaN.
Proof.
  split.
  - apply (proj1 zero_demand_outcome (NdArray [0; 0]) (NdArray [0; 0])).
    + reflexivity.
    + repeat constructor; discriminate.
    + repeat constructor; discriminate.
    + reflexivity.
  - apply (proj2 zero_demand_outcome
                 [PyList [0; 0]; NdArray [0; 0]]
                 [PyList [0; 0]; NdArray [0; 0]] 2%nat).
    + discriminate.
    + repeat split; repeat constructor.
    + repeat constructor; discriminate.
    + repeat constructor; discriminate.
    + reflexivity.
Defined.

(** C7 as stated fails: on all-zero series of two time steps the total
    demand is zero and [calc_DOC] returns [nan]; it neither raises nor
    returns [0]. *)
Lemma calc_DOC_zero_demand_nan :
  Sigma 2 (fun t => at_ [0; 0] t + at_ [0; 0] t) == 0 /\
  calc_DOC (PyList [0; 0]) (PyList [0; 0]) = Ok NaN /\
  ~ ((exists e, calc_DOC (PyList [0; 0]) (PyList [0; 0]) = Raise e) \/
     returns (calc_DOC (PyList [0; 0]) (PyList [0; 0])) 0).
Proof.
  split; [reflexivity|split; [reflexivity|]].
  intros [[e H]|H].
  - discriminate H.
  - exact H.
Qed.

(** ** Net demand *)

Lemma at_np_sub (a b : list Q) (t : nat) :
  length a = length b -> (t < length a)%nat ->
  at_ (np_sub a b) t = at_ a t - at_ b t.
Proof.
  intros Hlen Ht. unfold at_, np_sub.
  set (f := fun p : Q * Q => fst p - snd p).
  rewrite (nth_indep _ 0 (f (0, 0))).
  - rewrite map_nth, combine_nth by exact Hlen. reflexivity.
  - rewrite length_map, length_combine. lia.
Qed.

Lemma at_pairwise_min (a b : list Q) (t : nat) :
  length a = length b -> (t < length a)%nat ->
  at_ (map (fun p => Qmin (fst p) (snd p)) (combine a b)) t
  = Qmin (at_ a t) (at_ b t).
Proof.
  intros Hlen Ht. unfold at_.
  set (f := fun p : Q * Q => Qmin (fst p) (snd p)).
  rewrite (nth_indep _ 0 (f (0, 0))).
  - rewrite map_nth, combine_nth by exact Hlen. reflexivity.
  - rewrite length_map, length_combine. lia.
Qed.

Lemma length_np_sub (a b : list Q) :
  length a = length b -> length (np_sub a b) = length a.
Proof. intros H. unfold np_sub. rewrite length_map, length_combine. lia. Qed.

Lemma net_demand_ok (heat cold : list Q) :
  length heat = length cold ->
  exists nh nc,
    net_demand heat cold = Ok (nh, nc) /\
    length nh = length heat /\ length nc = length heat /\
    forall t, (t < length heat)%nat ->
      at_ nh t = at_ heat t - Qmin (at_ heat t) (at_ cold t) /\
      at_ nc t = at_ cold t - Qmin (at_ heat t) (at_ cold t).
Proof.
  intros Hlen. unfold net_demand, np_min_axis0.
  rewrite (proj2 (Nat.eqb_eq _ _) Hlen). cbn [bind].
  set (bal := map (fun p => Qmin (fst p) (snd p)) (combine heat cold)).
  assert (Lb : length bal = length heat)
    by (unfold bal; rewrite length_map, length_combine; lia).
  exists (np_sub heat bal), (np_sub cold bal).
  split; [reflexivity|split; [|split]].
  - apply length_np_sub. lia.
  - rewrite length_np_sub; lia.
  - intros t Ht. rewrite !at_np_sub by lia.
    unfold bal. rewrite at_pairwise_min by assumption. split; reflexivity.
Qed.

(** C8.  For equal-length non-negative heat and cold series the net-demand
    computation yields two non-negative series, at least one of which is
    zero at every time step; applied again to its own output it returns the
    same values. *)
Theorem net_demand_balanced (heat cold : list Q) :
  length heat = length cold ->
  nonneg heat -> nonneg cold ->
  exists net_heat net_cold,
    net_demand heat cold = Ok (net_heat, net_cold) /\
    length net_heat = length heat /\ length net_cold = length heat /\
    (forall t, (t < length heat)%nat ->
       0 <= at_ net_heat t /\ 0 <= at_ net_cold t /\
       (at_ net_heat t == 0 \/ at_ net_cold t == 0)) /\
    exists net_heat' net_cold',
      net_demand net_heat net_cold = Ok (net_heat', net_cold') /\
      same_series net_heat' net_heat /\ same_series net_cold' net_cold.
Proof.
  intros Hlen Nh Nc.
  destruct (net_demand_ok heat cold Hlen) as (nh & nc & E & Lh & Lc & Hat).
  assert (B : forall t, (t < length heat)%nat ->
            0 <= at_ nh t /\ 0 <= at_ nc t /\
            (at_ nh t == 0 \/ at_ nc t == 0)).
  { intros t Ht. destruct (Hat t Ht) as [-> ->].
    pose proof (nonneg_at heat t Nh). pose proof (nonneg_at cold t Nc).
    destruct (Q.min_spec (at_ heat t) (at_ cold t)) as [[? Em]|[? Em]];
      rewrite Em.
    - split; [lra|split; [lra|left; lra]].
    - split; [lra|split; [lra|right; lra]]. }
  exists nh, nc. split; [exact E|split; [exact Lh|split; [exact Lc|split]]].
  - exact B.
  - destruct (net_demand_ok nh nc ltac:(lia)) as (nh' & nc' & E' & Lh' & Lc' & Hat').
    exists nh', nc'. split; [exact E'|].
    assert (Z : forall t, (t < length nh)%nat ->
              Qmin (at_ nh t) (at_ nc t) == 0).
    { intros t Ht. destruct (B t ltac:(lia)) as (P & Q & Z).
      destruct (Q.min_spec (at_ nh t) (at_ nc t)) as [[? Em]|[? Em]];
        rewrite Em; destruct Z; lra. }
    split; (split; [lia|]); intros t Ht.
    + destruct (Hat' t ltac:(lia)) as [-> _]. rewrite Z by lia. lra.
    + destruct (Hat' t ltac:(lia)) as [_ ->]. rewrite Z by lia. lra.
Qed.

Lemma net_demand_balanced_witness :
  exists net_heat net_cold,
    net_demand [3; 1; 2] [1; 4; 2] = Ok (net_heat, net_cold) /\
    (forall t, (t < 3)%nat ->
       0 <= at_ net_heat t /\ 0 <= at_ net_cold t /\
       (at_ net_heat t == 0 \/ at_ net_cold t == 0)).
Proof.
  destruct (net_demand_balanced [3; 1; 2] [1; 4; 2])
    as (nh & nc & E & _ & _ & B & _).
  - reflexivity.
  - repeat constructor; discriminate.
  - repeat constructor; discriminate.
  - exists nh, nc. split; [exact E|exact B].
Defined.


(** * Further properties of the code *)

(** ** Outcomes up to rational equality *)

Lemma float_eq_refl (a : float) : float_eq a a.
Proof. destruct a; simpl; [reflexivity|exact I..]. Qed.

Lemma outcome_eq_refl (r : result float) : outcome_eq r r.
Proof. destruct r; simpl; [apply float_eq_refl|reflexivity]. Qed.

Lemma outcome_eq_sym (r1 r2 : result float) :
  outcome_eq r1 r2 -> outcome_eq r2 r1.
Proof.
  destruct r1 as [[]|], r2 as [[]|]; simpl; try tauto.
  - intros H. now symmetry.
  - intros H. now symmetry.
Qed.

Lemma outcome_eq_trans (r1 r2 r3 : result float) :
  outcome_eq r1 r2 -> outcome_eq r2 r3 -> outcome_eq r1 r3.
Proof.
  destruct r1 as [[]|], r2 as [[]|], r3 as [[]|]; simpl; try tauto.
  - intros H1 H2. now rewrite H1.
  - intros H1 H2. congruence.
Qed.

Lemma np_true_divide_compat (x y x' y' : Q) :
  x == x' -> y == y' ->
  float_eq (np_true_divide x y) (np_true_divide x' y').
Proof.
  intros Hx Hy. unfold np_true_divide.
  destruct (Qeq_bool y 0) eqn:E, (Qeq_bool y' 0) eqn:E'.
  - rewrite (Qcompare_comp x x' Hx 0 0 (Qeq_refl 0)).
    destruct (x' ?= 0); exact I.
  - apply Qeq_bool_iff in E. apply Qeq_bool_neq in E'. lra.
  - apply Qeq_bool_iff in E'. apply Qeq_bool_neq in E. lra.
  - simpl. now rewrite Hx, Hy.
Qed.

(** X1.  [calc_DOC] is symmetric in its two arguments when they have the
    same length: swapping heat and cold gives the same outcome.  When the
    lengths differ the symmetry is lost: exactly one of the two orders
    raises [IndexError]. *)
Theorem calc_DOC_symmetric (heat cool : array_like) :
  (len heat = len cool ->
   outcome_eq (calc_DOC heat cool) (calc_DOC cool heat)) /\
  (len heat <> len cool ->
   (calc_DOC heat cool = Raise IndexError <->
    calc_DOC cool heat <> Raise IndexError)).
Proof.
  split.
  - intros Hlen. rewrite !calc_DOC_closed by lia. rewrite <- Hlen.
    destruct (len heat) as [|n] eqn:En; [reflexivity|].
    apply np_true_divide_compat.
    + rewrite !DOC_counter_Sigma. fold (len heat) (len cool).
      rewrite En, <- Hlen. apply Qmult_comp; [reflexivity|].
      apply Sigma_ext. intros t _. apply Q.min_comm.
    + rewrite !DOC_denominator_Sigma. fold (len heat) (len cool).
      rewrite En, <- Hlen. apply Sigma_ext. intros t _. lra.
  - intros Hne. destruct (Nat.lt_ge_cases (len cool) (len heat)) as [L|L].
    + split; [|intros _; now apply calc_DOC_short].
      intros _. rewrite calc_DOC_closed by lia.
      destruct (len cool); discriminate.
    + split.
      * rewrite calc_DOC_closed by exact L.
        destruct (len heat); discriminate.
      * intros H. exfalso. apply H. apply calc_DOC_short. lia.
Qed.

Lemma calc_DOC_symmetric_witness :
  outcome_eq (calc_DOC (PyList [1; 3; 0]) (NdArray [2; 1; 4]))
             (calc_DOC (NdArray [2; 1; 4]) (PyList [1; 3; 0])) /\
  (calc_DOC (PyList [1; 3]) (NdArray [2; 1; 4]) = Raise IndexError <->
   calc_DOC (NdArray [2; 1; 4]) (PyList [1; 3]) <> Raise IndexError).
Proof.
  split.
  - apply (proj1 (calc_DOC_symmetric (PyList [1; 3; 0]) (NdArray [2; 1; 4]))).
    reflexivity.
  - apply (proj2 (calc_DOC_symmetric (PyList [1; 3]) (NdArray [2; 1; 4]))).
    vm_compute. discriminate.
Defined.

(** ** Collections whose series are longer than needed *)









(** ** Collections with a series that is too short *)










(** ** One entity, two entities *)







(** ** Mean, network and district DOC of one collection *)







(** ** The DOC of net demands *)



(** ** Range of the collection DOCs *)



(** ** The order of the entities *)













(** ** Heat against cold *)

(** X11.  Both collection functions are symmetric in heat and cold: on a
    non-empty collection, exchanging the heat list and the cold list leaves
    the outcome unchanged. *)
Theorem collection_DOC_symmetric (heat_list cool_list : list array_like)
    (T : nat) :
  heat_list <> [] ->
  collection heat_list cool_list T ->
  outcome_eq (calc_mean_BES_DOC heat_list cool_list)
             (calc_mean_BES_DOC cool_list heat_list) /\
  outcome_eq (calc_Network_DOC heat_list cool_list)
             (calc_Network_DOC cool_list heat_list).
Proof.
  intros Hne Hcol.
  assert (HE : length heat_list = length cool_list) by apply Hcol.
  assert (Hne' : cool_list <> [])
    by (destruct heat_list, cool_list; simpl in *; congruence).
  assert (Hcol' : collection cool_list heat_list T).
  { destruct Hcol as (H1 & H2 & H3). split; [now symmetry|now split]. }
  assert (HD : total_demand heat_list cool_list T
               == total_demand cool_list heat_list T).
  { unfold total_demand. rewrite <- HE. apply Sigma_ext. intros t _.
    apply Sigma_ext. intros e _. lra. }
  split.
  - destruct (calc_mean_BES_DOC_closed _ _ T Hne Hcol)
      as (n & d & E & En & Ed).
    destruct (calc_mean_BES_DOC_closed _ _ T Hne' Hcol')
      as (n' & d' & E' & En' & Ed').
    rewrite E, E'. destruct T as [|T']; [reflexivity|].
    apply np_true_divide_compat.
    + rewrite En, En', <- HE. apply Qmult_comp; [reflexivity|].
      apply Sigma_ext. intros t _. apply Sigma_ext. intros e _.
      apply Q.min_comm.
    + now rewrite Ed, Ed'.
  - destruct (calc_Network_DOC_closed _ _ T Hne Hcol)
      as (n & d & E & En & Ed).
    destruct (calc_Network_DOC_closed _ _ T Hne' Hcol')
      as (n' & d' & E' & En' & Ed').
    rewrite E, E'. destruct T as [|T']; [reflexivity|].
    apply np_true_divide_compat.
    + rewrite En, En', <- HE. apply Qmult_comp; [reflexivity|].
      apply Sigma_ext. intros t _. apply Q.min_comm.
    + now rewrite Ed, Ed'.
Qed.

Lemma collection_DOC_symmetric_witness :
  outcome_eq
    (calc_mean_BES_DOC [NdArray [1; 0]; NdArray [2; 3]]
                       [NdArray [0; 1]; NdArray [1; 1]])
    (calc_mean_BES_DOC [NdArray [0; 1]; NdArray [1; 1]]
                       [NdArray [1; 0]; NdArray [2; 3]]) /\
  outcome_eq
    (calc_Network_DOC [NdArray [1; 0]; NdArray [2; 3]]
                      [NdArray [0; 1]; NdArray [1; 1]])
    (calc_Network_DOC [NdArray [0; 1]; NdArray [1; 1]]
                      [NdArray [1; 0]; NdArray [2; 3]]).
Proof.
  apply (collection_DOC_symmetric _ _ 2).
  - discriminate.
  - repeat split; repeat constructor.
Defined.

(** ** The mean DOC as an average *)






(** ** Constant demand and the overlap series *)








